(** * m1photobook: square_images.py

    A shallow embedding of the label-compositing pipeline of
    [square_images.py] (metadata extraction, label text building, square
    canvas composition, label rendering) and the properties of it that the
    specification states.

    Conventions.
    - A Python [str] is a list of Unicode code points ([str := list N]), so
      that [len] and slicing count characters, not bytes.
    - A Python [bytes] is a [list Byte.byte].
    - Python floats are idealised as rationals ([Q]); comparisons and the
      arithmetic of the source are carried out exactly.
    - A Python [dict] is a [gmap]; a missing key raises [KeyError].
    - Code that may raise lives in the [result] monad; [try/except Exception]
      collapses a raised exception into the handler's value.
    - The font, the EXIF reader, the timestamp parser and the geocoder are
      collaborators of the script: they are Section variables. *)

From Stdlib Require Import ZArith QArith Qround Lia Lqa.
From Stdlib Require Import Strings.Byte.
From stdpp Require Import base option list strings pretty gmap lexico sorting.
From Equations Require Import Equations.

Local Open Scope Z_scope.

(** ** Strings *)

Module Str.

(** Unicode code point. *)
Definition char : Type := N.

(** Python [str]. *)
Definition str : Type := list char.

(** An ASCII literal of the source as a [str]. *)
Definition lit (s : string) : str :=
  map Ascii.N_of_ascii (String.list_ascii_of_string s).

(** U+2014 EM DASH and U+2026 HORIZONTAL ELLIPSIS. *)
Definition em_dash : char := 8212%N.
Definition hellip : char := 8230%N.
Definition space : char := 32%N.

(** [s[:-1]]: every character but the last; the empty string stays empty. *)
Definition drop_last (s : str) : str := take (length s - 1)%nat s.

(** [len(s)]. *)
Definition len (s : str) : Z := Z.of_nat (length s).

End Str.
Import Str.

(** ** Exceptions *)

(** A computation that returns a value or raises a Python [Exception]. *)
Inductive result (A : Type) : Type :=
| Ok (a : A)
| Raise.
Arguments Ok {A} a.
Arguments Raise {A}.

#[export] Instance result_ret : MRet result := fun A a => Ok a.

#[export] Instance result_bind : MBind result := fun A B k r =>
  match r with
  | Ok a => k a
  | Raise => Raise
  end.

(** [d[k]] on a dict: [KeyError] when the key is missing. *)
Definition getitem {K V} `{Lookup K V M} (d : M) (k : K) : result V :=
  match d !! k with
  | Some v => Ok v
  | None => Raise
  end.

(** [try: return body / except Exception: return handler]. *)
Definition try_except {A} (body : result A) (handler : A) : A :=
  match body with
  | Ok a => a
  | Raise => handler
  end.

(** ** EXIF data as [piexif] hands it out *)

(** The value of an EXIF tag: a byte string, an integer, or a tuple (a
    rational is the pair (numerator, denominator); a DMS coordinate is a
    tuple of three rationals). *)
#[warnings="-register-all"]
Inductive exif_value : Type :=
| EBytes (b : list byte)
| EInt (n : Z)
| ETuple (l : list exif_value).

(** One IFD: tag number to value; and the whole block: IFD name to IFD. *)
Abbreviation ifd := (gmap Z exif_value).
Abbreviation exif_dict := (gmap string (gmap Z exif_value)).

(** [piexif.ExifIFD.DateTimeOriginal] and the [piexif.GPSIFD] tags. *)
Definition DateTimeOriginal : Z := 36867.
Definition GPSLatitudeRef : Z := 1.
Definition GPSLatitude : Z := 2.
Definition GPSLongitudeRef : Z := 3.
Definition GPSLongitude : Z := 4.

(** [datetime.datetime] *)
Record datetime : Type := mk_datetime {
  year : Z; month : Z; day : Z; hour : Z; minute : Z; second : Z
}.

(** ** Configuration *)

Definition OUTPUT_SIZE : Z := 2048.
Definition BLUR_RADIUS : Z := 60.
Definition TEXT_SIZE : Z := 72.
Definition TEXT_MARGIN : Z := 24.
Definition MAX_TEXT_WIDTH_RATIO : Q := 7 # 10.

Definition MONTHS_NL : gmap Z str :=
  list_to_map
    [ (1, lit "jan"); (2, lit "feb"); (3, lit "mrt"); (4, lit "apr");
      (5, lit "mei"); (6, lit "jun"); (7, lit "jul"); (8, lit "aug");
      (9, lit "sep"); (10, lit "okt"); (11, lit "nov"); (12, lit "dec") ].

(** [f"{n}"] for an [int]. *)
Definition str_of_int (n : Z) : str := lit (pretty n).

(** ** Label text builder: [clamp_city] *)

Section ClampCity.

(** [draw.textlength(_, font=FONT)]: the measured width of a string under
    the fixed font. *)
Variable textlength : str -> Q.

(** [f"{date} — {city}"] *)
Definition base_label (date city : str) : str :=
  date ++ [space; em_dash; space] ++ city.

(** [f"{date} — {trimmed}{ellipsis}"] *)
Definition candidate (date trimmed : str) : str :=
  date ++ [space; em_dash; space] ++ trimmed ++ [hellip].

(** [draw.textlength(s, font=FONT) <= max_width] *)
Definition fits (max_width : Q) (s : str) : bool :=
  Qle_bool (textlength s) max_width.

(** The [while len(trimmed) > 1] loop of [clamp_city].  The result is the
    returned label together with the strings that were measured, one per
    iteration, in order. *)
Equations? clamp_loop (date trimmed : str) (max_width : Q) : str * list str
  by wf (length trimmed) lt :=
  clamp_loop date trimmed max_width with le_lt_dec (length trimmed) 1 => {
    | left _ := (date, []);
    | right _ with fits max_width (candidate date (drop_last trimmed)) => {
      | true := (candidate date (drop_last trimmed),
                 [candidate date (drop_last trimmed)]);
      | false :=
          let r := clamp_loop date (drop_last trimmed) max_width in
          (r.1, candidate date (drop_last trimmed) :: r.2) } }.
Proof.
  unfold drop_last. rewrite length_take. lia.
Qed.

(** [clamp_city(draw, date, city, max_width)], with the list of measured
    strings. *)
Definition clamp_city_run (date city : str) (max_width : Q)
  : str * list str :=
  if fits max_width (base_label date city)
  then (base_label date city, [base_label date city])
  else
    let r := clamp_loop date city max_width in
    (r.1, base_label date city :: r.2).

Definition clamp_city (date city : str) (max_width : Q) : str :=
  (clamp_city_run date city max_width).1.

(** Strings measured by [clamp_city]. *)
Definition clamp_city_measured (date city : str) (max_width : Q) : list str :=
  (clamp_city_run date city max_width).2.

End ClampCity.

(** ** Metadata extractor *)

(** [v[i]]: a tuple gives its i-th item ([IndexError] out of range), a byte
    string gives the integer value of its i-th byte, an integer is not
    subscriptable ([TypeError]). *)
Definition subscript (v : exif_value) (i : nat) : result exif_value :=
  match v with
  | ETuple l => getitem l i
  | EBytes b => x ← getitem b i; Ok (EInt (Z.of_N (Byte.to_N x)))
  | EInt _ => Raise
  end.

(** [a / b]: true division of two integers ([ZeroDivisionError] when [b] is
    zero); [TypeError] on tuples and byte strings. *)
Definition truediv (a b : exif_value) : result Q :=
  match a, b with
  | EInt n, EInt d => if decide (d = 0) then Raise else Ok (Qmake n 1 / Qmake d 1)%Q
  | _, _ => Raise
  end.

(** [ref in [b"S", b"W"]] *)
Definition south_or_west (ref : exif_value) : bool :=
  match ref with
  | EBytes [b] => Byte.eqb b x53 || Byte.eqb b x57
  | _ => false
  end.

Definition dms_to_deg (dms ref : exif_value) : result Q :=
  d ← subscript dms 0;
  dn ← subscript d 0;
  dd ← subscript d 1;
  deg ← truediv dn dd;
  m ← subscript dms 1;
  mn ← subscript m 0;
  md ← subscript m 1;
  min ← truediv mn md;
  s ← subscript dms 2;
  sn ← subscript s 0;
  sd ← subscript s 1;
  sec ← truediv sn sd;
  let value := (deg + min / 60 + sec / 3600)%Q in
  Ok (if south_or_west ref then (- value)%Q else value).

(** What the reverse geocoder answers: [location.raw] maps field names to
    values; the ["address"] field of a well-formed answer is a record whose
    fields are strings. *)
Inductive raw_value : Type :=
| RNull
| RNumber (q : Q)
| RText (s : str)
| RRecord (fields : gmap string str).

Abbreviation raw_dict := (gmap string raw_value).

(** Truth value of [addr.get(k)]: [None] and the empty string are false. *)
Definition truthy (v : option str) : bool :=
  match v with
  | Some (_ :: _) => true
  | _ => false
  end.

(** [addr.get(k)]: [AttributeError] unless [addr] is a record. *)
Definition addr_get (addr : raw_value) (k : string) : result (option str) :=
  match addr with
  | RRecord fields => Ok (fields !! k)
  | _ => Raise
  end.

Section Metadata.

(** [bytes.decode()]: strict UTF-8. *)
Variable decode : list byte -> result str.

(** [datetime.strptime(_, "%Y:%m:%d %H:%M:%S")] *)
Variable strptime : str -> result datetime.

(** The module-level [geolocator]: [None] when [geopy] is not installed,
    else its [reverse((lat, lon), language="nl", zoom=10)], which answers
    a location (its [raw] dict), answers [None], or raises. *)
Variable geolocator : option (Q * Q -> result (option raw_dict)).

(** [v.decode()]: [AttributeError] unless [v] is a byte string. *)
Definition decode_value (v : exif_value) : result str :=
  match v with
  | EBytes b => decode b
  | _ => Raise
  end.

Definition exif_date (exif : exif_dict) : option str :=
  try_except
    (e ← getitem exif "Exif";
     v ← getitem (e : ifd) DateTimeOriginal;
     raw ← decode_value v;
     dt ← strptime raw;
     name ← getitem MONTHS_NL (month dt);
     Ok (Some (str_of_int (day dt) ++ [space] ++ name)))
    None.

(** The [try] body of [exif_city] up to the lookup: the coordinates handed
    to [geolocator.reverse]. *)
Definition gps_coordinates (exif : exif_dict) : result (Q * Q) :=
  gps ← getitem exif "GPS";
  lat_dms ← getitem (gps : ifd) GPSLatitude;
  lat_ref ← getitem (gps : ifd) GPSLatitudeRef;
  lat ← dms_to_deg lat_dms lat_ref;
  lon_dms ← getitem (gps : ifd) GPSLongitude;
  lon_ref ← getitem (gps : ifd) GPSLongitudeRef;
  lon ← dms_to_deg lon_dms lon_ref;
  Ok (lat, lon).

(** What [exif_city] does with the geocoder's answer; [None] stands for
    falling out of the [if] to the final [return None]. *)
Definition city_of_location (location : option raw_dict)
  : result (option str) :=
  match location with
  | Some raw =>
      match raw !! "address" with
      | Some addr =>
          c ← addr_get addr "city";
          if truthy c then Ok c else
          t ← addr_get addr "town";
          if truthy t then Ok t else
          addr_get addr "village"
      | None => Ok None
      end
  | None => Ok None
  end.

(** [exif_city(exif)], with the coordinates of every call that was made
    to [geolocator.reverse], in order. *)
Definition exif_city_run (exif : exif_dict) : option str * list (Q * Q) :=
  match geolocator with
  | None => (None, [])
  | Some reverse =>
      match gps_coordinates exif with
      | Raise => (None, [])
      | Ok coords =>
          (try_except (location ← reverse coords; city_of_location location)
                      None,
           [coords])
      end
  end.

Definition exif_city (exif : exif_dict) : option str :=
  (exif_city_run exif).1.

Definition exif_city_lookups (exif : exif_dict) : list (Q * Q) :=
  (exif_city_run exif).2.

End Metadata.

(** ** Square canvas compositor and label renderer: [process_image] *)

(** [int(q)]: truncation towards zero. *)
Definition py_int (q : Q) : Z :=
  if Qle_bool 0 q then Qfloor q else Qceiling q.

(** One [draw.text(xy, text, font=FONT, fill=TEXT_COLOR)] call. *)
Record text_draw : Type := mk_text_draw {
  xy : Q * Q;
  text : str
}.

Section ProcessImage.

(** Pixel buffers and the three [PIL] operations on them: Lanczos
    resampling from one size to another, Gaussian blur, and pasting a
    buffer into another at an offset. *)
Variable Px : Type.
Variable resample : Z * Z -> Z * Z -> Px -> Px.
Variable gaussian_blur : Z -> Z * Z -> Px -> Px.
Variable paste_px : Z * Z -> Px -> Z * Z -> Px -> Z * Z -> Px.

(** The font: [draw.textlength(_, font=FONT)] and [FONT.getmetrics()]. *)
Variable textlength : str -> Q.
Variable ascent descent : Z.

(** [piexif.load], [bytes.decode], [datetime.strptime], [geolocator]. *)
Variable piexif_load : list byte -> result exif_dict.
Variable decode : list byte -> result str.
Variable strptime : str -> result datetime.
Variable geolocator : option (Q * Q -> result (option raw_dict)).

(** A [PIL.Image]: its [size], its pixels, and [info.get("exif")]. *)
Record Image : Type := mk_Image {
  size : Z * Z;
  pixels : Px;
  info_exif : option (list byte)
}.

(** [im.resize(sz, Image.LANCZOS)]: a new image of size [sz]. *)
Definition resize (im : Image) (sz : Z * Z) : Image :=
  {| size := sz;
     pixels := resample (size im) sz (pixels im);
     info_exif := info_exif im |}.

(** [im.filter(ImageFilter.GaussianBlur(r))]: same size. *)
Definition blur (im : Image) (r : Z) : Image :=
  {| size := size im;
     pixels := gaussian_blur r (size im) (pixels im);
     info_exif := info_exif im |}.

(** [bg.paste(im, box)]: [bg] keeps its size. *)
Definition paste (bg im : Image) (box : Z * Z) : Image :=
  {| size := size bg;
     pixels := paste_px (size bg) (pixels bg) (size im) (pixels im) box;
     info_exif := info_exif bg |}.

Definition square_size (img : Image) : Z :=
  Z.max (size img).1 (size img).2.

(** The box of [bg.paste(img, ...)]. *)
Definition paste_box (img : Image) : Z * Z :=
  ((square_size img - (size img).1) `div` 2,
   (square_size img - (size img).2) `div` 2).

(** The blurred square background at source resolution. *)
Definition background (img : Image) : Image :=
  blur (resize img (square_size img, square_size img)) BLUR_RADIUS.

(** The background with the original pasted onto it. *)
Definition composite (img : Image) : Image :=
  paste (background img) img (paste_box img).

(** Lines 117-127: the canvas before any text is drawn. *)
Definition compose (img : Image) : Image :=
  resize (composite img) (OUTPUT_SIZE, OUTPUT_SIZE).

(** Lines 130-141: the [label] of an image. *)
Definition image_label (img : Image) : option (str * option str) :=
  try_except
    (exif ← piexif_load (default [] (info_exif img));
     let date := exif_date decode strptime exif in
     let city := exif_city geolocator exif in
     Ok (match date with
         | Some ((_ :: _) as d) =>
             if truthy city then Some (d, city) else Some (d, None)
         | _ => None
         end))
    None.

(** Lines 148-151: the text of a label, with the strings measured while
    building it. *)
Definition label_text_run (label : str * option str) (max_width : Q)
  : str * list str :=
  match label.2 with
  | Some ((_ :: _) as city) => clamp_city_run textlength label.1 city max_width
  | _ => (label.1, [])
  end.

Definition label_text (label : str * option str) (max_width : Q) : str :=
  (label_text_run label max_width).1.

(** [int(OUTPUT_SIZE * MAX_TEXT_WIDTH_RATIO)] *)
Definition max_width : Z :=
  py_int (inject_Z OUTPUT_SIZE * MAX_TEXT_WIDTH_RATIO).

(** Lines 153-165: where and what [draw.text] draws. *)
Definition render (txt : str) : text_draw :=
  let text_width := textlength txt in
  let text_height := ascent + descent in
  {| xy := ((inject_Z OUTPUT_SIZE - text_width - inject_Z TEXT_MARGIN)%Q,
            inject_Z (OUTPUT_SIZE - text_height - TEXT_MARGIN));
     text := txt |}.

(** What [process_image] saves: the canvas and the text drawn on it. *)
Record output : Type := mk_output {
  canvas : Image;
  drawn : list text_draw
}.

Definition process_image (img : Image) : output :=
  let bg := compose img in
  match image_label img with
  | Some label =>
      {| canvas := bg;
         drawn := [render (label_text label (inject_Z max_width))] |}
  | None => {| canvas := bg; drawn := [] |}
  end.

End ProcessImage.

(** ** Batch driver: [main] *)

(** [s <= t] on [str]: code point by code point, a prefix before its
    extensions. *)
Definition str_le (s t : str) : Prop := s = t \/ lexico s t.

#[export] Instance str_le_dec : RelDecision str_le.
Proof. intros s t. unfold str_le. apply _. Defined.

Section Batch.

Variable Px : Type.
Variable resample : Z * Z -> Z * Z -> Px -> Px.
Variable gaussian_blur : Z -> Z * Z -> Px -> Px.
Variable paste_px : Z * Z -> Px -> Z * Z -> Px -> Z * Z -> Px.
Variable textlength : str -> Q.
Variable ascent descent : Z.
Variable piexif_load : list byte -> result exif_dict.
Variable decode : list byte -> result str.
Variable strptime : str -> result datetime.
Variable geolocator : option (Q * Q -> result (option raw_dict)).

(** [str.lower()] *)
Variable lower : str -> str.

(** [Image.open(os.path.join(INPUT_DIR, filename)).convert("RGB")]: raises
    on a file that is not a readable image. *)
Variable open_image : str -> result (Image Px).

(** [f.lower().endswith(".jpg")] *)
Definition is_jpg (f : str) : bool :=
  bool_decide (lit ".jpg" `suffix_of` lower f).

(** [sorted(f for f in os.listdir(INPUT_DIR) if f.lower().endswith(".jpg"))] *)
Definition batch_files (listing : list str) : list str :=
  merge_sort str_le (filter (fun f => Is_true (is_jpg f)) listing).

(** [bg.save(os.path.join(OUTPUT_DIR, filename), quality=95)]: raises, for
    one, when the file name has no extension to tell the format from. *)
Variable save_image : str -> output Px -> result unit.

(** [process_image(filename)], from opening the file to saving the canvas:
    what was saved, unless the open or the save raised. *)
Definition process_file (f : str) : result (output Px) :=
  img ← open_image f;
  let out :=
    process_image Px resample gaussian_blur paste_px textlength ascent descent
      piexif_load decode strptime geolocator img in
  _ ← save_image f out;
  Ok out.

(** The [for f in files: process_image(f)] loop: the files saved, in order,
    each with what was saved under its name, and whether the loop ran to its
    end ([false]: a [process_image] call raised and ended the run). *)
Fixpoint run_batch (files : list str) : list (str * output Px) * bool :=
  match files with
  | [] => ([], true)
  | f :: rest =>
      match process_file f with
      | Ok out =>
          let r := run_batch rest in
          ((f, out) :: r.1, r.2)
      | Raise => ([], false)
      end
  end.

(** [main()], given what [os.listdir(INPUT_DIR)] answers. *)
Definition main (listing : list str) : list (str * output Px) * bool :=
  run_batch (batch_files listing).

End Batch.

(** ** The label builder as the specification words it *)

(** The truncations of [city] in the order the builder tries them: one
    character fewer at each step, from [len(city) - 1] characters down to a
    single one. *)
Definition truncations (city : str) : list str :=
  map (fun k => take k city) (reverse (seq 1 (length city - 1))).

(** The first element of [cands] that fits (else [date]), together with the
    elements looked at. *)
Fixpoint first_fit (textlength : str -> Q) (max_width : Q) (date : str)
    (cands : list str) : str * list str :=
  match cands with
  | [] => (date, [])
  | c :: rest =>
      if fits textlength max_width c then (c, [c])
      else
        let r := first_fit textlength max_width date rest in
        (r.1, c :: r.2)
  end.

(** ** The metadata extractor as the specification words it *)

(** The fixed 12-entry month table, indexed 1-12. *)
Definition month_abbrevs : list str :=
  [ lit "jan"; lit "feb"; lit "mrt"; lit "apr"; lit "mei"; lit "jun";
    lit "jul"; lit "aug"; lit "sep"; lit "okt"; lit "nov"; lit "dec" ].

Definition month_abbrev (m : Z) : str :=
  default [] (month_abbrevs !! Z.to_nat (m - 1)).

(** The original-capture timestamp of a metadata block, when the field is
    there, is a byte string, decodes and parses. *)
Definition capture_timestamp (decode : list byte -> result str)
    (strptime : str -> result datetime) (exif : exif_dict) : option datetime :=
  match exif !! "Exif" with
  | Some e =>
      match (e : ifd) !! DateTimeOriginal with
      | Some (EBytes b) =>
          match decode b with
          | Ok raw =>
              match strptime raw with
              | Ok dt => Some dt
              | Raise => None
              end
          | Raise => None
          end
      | _ => None
      end
  | None => None
  end.

(** The first non-empty value in priority order; when there is none, the
    value of the last field. *)
Definition first_nonempty (vs : list (option str)) : option str :=
  match list_find (fun v => Is_true (truthy v)) vs with
  | Some (_, v) => v
  | None => default None (last vs)
  end.

(** One of the four GPS fields that [exif_city] reads is not in the block. *)
Definition gps_field_missing (exif : exif_dict) : Prop :=
  forall gps : ifd,
    exif !! "GPS" = Some gps ->
    exists tag,
      tag ∈ [GPSLatitude; GPSLatitudeRef; GPSLongitude; GPSLongitudeRef]
      /\ gps !! tag = None.

(** ** Sample collaborators *)

(** A monospace font whose every glyph advances 20 pixels. *)
Definition mono_textlength (s : str) : Q := inject_Z (20 * len s).

(** [bytes.decode()] on ASCII byte strings; this sample raises on any byte
    from 0x80 up. *)
Definition decode_ascii (b : list byte) : result str :=
  if forallb (fun x => (Byte.to_N x <? 128)%N) b
  then Ok (map Byte.to_N b)
  else Raise.

Definition digit (c : char) : option Z :=
  if ((48 <=? c) && (c <=? 57))%N then Some (Z.of_N c - 48) else None.

Definition number (cs : list char) : option Z :=
  foldl (fun acc c => a ← acc; d ← digit c; Some (10 * a + d)) (Some 0) cs.

Definition leap_year (y : Z) : bool :=
  ((y mod 4 =? 0) && negb (y mod 100 =? 0)) || (y mod 400 =? 0).

Definition days_in_month (y m : Z) : Z :=
  if m =? 2 then (if leap_year y then 29 else 28)
  else if (m =? 4) || (m =? 6) || (m =? 9) || (m =? 11) then 30
  else 31.

Definition valid_datetime (dt : datetime) : bool :=
  (1 <=? year dt) && (1 <=? month dt) && (month dt <=? 12)
  && (1 <=? day dt) && (day dt <=? days_in_month (year dt) (month dt))
  && (hour dt <=? 23) && (minute dt <=? 59) && (second dt <=? 59).

(** The fields of a zero-padded [YYYY:MM:DD HH:MM:SS] timestamp. *)
Definition padded_fields (s : str) : option datetime :=
  if decide (length s = 19%nat
             /\ s !! 4%nat = Some 58%N /\ s !! 7%nat = Some 58%N
             /\ s !! 10%nat = Some 32%N
             /\ s !! 13%nat = Some 58%N /\ s !! 16%nat = Some 58%N)
  then
    y ← number (take 4 s);
    m ← number (take 2 (drop 5 s));
    d ← number (take 2 (drop 8 s));
    h ← number (take 2 (drop 11 s));
    mi ← number (take 2 (drop 14 s));
    se ← number (take 2 (drop 17 s));
    Some (mk_datetime y m d h mi se)
  else None.

(** [datetime.strptime(_, "%Y:%m:%d %H:%M:%S")] on the zero-padded form that
    cameras write; this sample raises on every other string. *)
Definition strptime_padded (s : str) : result datetime :=
  match padded_fields s with
  | Some dt => if valid_datetime dt then Ok dt else Raise
  | None => Raise
  end.

(** Amsterdam: 52 deg 22 min 26.4 s north, 4 deg 53 min 22.2 s east. *)
Definition sample_gps : ifd :=
  {[ GPSLatitudeRef := EBytes (String.list_byte_of_string "N");
     GPSLatitude :=
       ETuple [ETuple [EInt 52; EInt 1]; ETuple [EInt 22; EInt 1];
               ETuple [EInt 264; EInt 10]];
     GPSLongitudeRef := EBytes (String.list_byte_of_string "E");
     GPSLongitude :=
       ETuple [ETuple [EInt 4; EInt 1]; ETuple [EInt 53; EInt 1];
               ETuple [EInt 222; EInt 10]] ]}.

(** A block with a capture date and a position. *)
Definition sample_exif : exif_dict :=
  {[ "Exif" := ({[ DateTimeOriginal :=
                     EBytes (String.list_byte_of_string "2023:01:03 14:05:09") ]}
                : ifd);
     "GPS" := sample_gps ]}.

(** A block with a position and no capture date. *)
Definition undated_exif : exif_dict :=
  {[ "Exif" := (∅ : ifd); "GPS" := sample_gps ]}.

(** A geocoder that places every coordinate in Amsterdam. *)
Definition sample_reverse (coords : Q * Q) : result (option raw_dict) :=
  Ok (Some {[ "address" :=
                RRecord {[ "city" := lit "Amsterdam";
                           "town" := lit "Amstelveen";
                           "village" := lit "Ouderkerk" ]} ]}).

(** An EXIF reader that knows two blocks, by their first byte. *)
Definition sample_load (b : list byte) : result exif_dict :=
  match b with
  | x01 :: _ => Ok sample_exif
  | x02 :: _ => Ok undated_exif
  | _ => Raise
  end.

(** [str.lower()] on ASCII letters; this sample leaves every other
    character as it is. *)
Definition ascii_lower (s : str) : str :=
  map (fun c => if ((65 <=? c) && (c <=? 90))%N then (c + 32)%N else c) s.

(** A directory in which every file but [broken.jpg] opens. *)
Definition sample_open (f : str) : result (Image Z) :=
  if decide (f = lit "broken.jpg") then Raise
  else Ok {| size := (4000, 3000); pixels := 128; info_exif := Some [x01] |}.

(** A save that tells the format from the extension: it raises on the file
    whose whole name is [.jpg]. *)
Definition sample_save (f : str) (out : output Z) : result unit :=
  if decide (f = lit ".jpg") then Raise else Ok ().

(** Images whose pixel buffer is a single grey level. *)
Definition grey_image (w h : Z) (exif : option (list byte)) : Image Z :=
  {| size := (w, h); pixels := 128; info_exif := exif |}.

(** The pipeline at the sample collaborators, on grey images. *)
Definition sample_image_label : Image Z -> option (str * option str) :=
  image_label Z sample_load decode_ascii strptime_padded (Some sample_reverse).


Definition sample_main : list str -> list (str * output Z) * bool :=
  main Z (fun _ _ p => p) (fun _ _ p => p) (fun _ p _ _ _ => p)
    mono_textlength 67 17 sample_load decode_ascii strptime_padded
    (Some sample_reverse) ascii_lower sample_open sample_save.

(** A directory listing, as [os.listdir] may answer it. *)
Definition sample_listing : list str :=
  [lit "b.JPG"; lit "notes.txt"; lit "a.jpg"; lit "c.jpg"].

(** ** Properties of the label builder *)

Section ClampCityFacts.

Variable textlength : str -> Q.

Lemma length_drop_last (s : str) :
  length (drop_last s) = (length s - 1)%nat.
Proof. unfold drop_last. rewrite length_take. lia. Qed.

Lemma truncations_short (s : str) :
  (length s <= 1)%nat -> truncations s = [].
Proof.
  intros Hs. unfold truncations.
  replace (length s - 1)%nat with 0%nat by lia. reflexivity.
Qed.

Lemma truncations_step (s : str) :
  (1 < length s)%nat ->
  truncations s = drop_last s :: truncations (drop_last s).
Proof.
  intros Hs. unfold truncations. rewrite length_drop_last.
  destruct (length s) as [|[|n]] eqn:Hlen; try lia.
  replace (S (S n) - 1)%nat with (S n) by lia.
  replace (S n - 1)%nat with n by lia.
  rewrite seq_S, reverse_app. simpl. f_equal.
  - unfold drop_last. rewrite Hlen. reflexivity.
  - apply map_ext_in. intros k Hk.
    apply list_elem_of_In, elem_of_reverse, list_elem_of_In, in_seq in Hk.
    unfold drop_last. rewrite take_take. f_equal. lia.
Qed.

(** The loop is the first-fit search over the truncations. *)
Lemma clamp_loop_first_fit (date trimmed : str) (max_width : Q) :
  clamp_loop textlength date trimmed max_width =
  first_fit textlength max_width date
    (map (candidate date) (truncations trimmed)).
Proof.
  funelim (clamp_loop textlength date trimmed max_width).
  - rewrite truncations_short by lia. reflexivity.
  - rewrite truncations_step by lia. simpl. rewrite Heq. reflexivity.
  - rewrite truncations_step by lia. simpl. rewrite Heq.
    match goal with IH : clamp_loop _ _ _ _ = first_fit _ _ _ _ |- _ =>
      rewrite IH end.
    reflexivity.
Qed.


(** [first_fit] finds the first fitting element and looks at nothing
    beyond it. *)
Lemma first_fit_find (max_width : Q) (date : str) (cands : list str) :
  first_fit textlength max_width date cands =
  match list_find (fun c => Is_true (fits textlength max_width c)) cands with
  | Some (k, c) => (c, take (S k) cands)
  | None => (date, cands)
  end.
Proof.
  induction cands as [|c rest IH]; simpl; [reflexivity|].
  destruct (fits textlength max_width c) eqn:Hc; simpl.
  - reflexivity.
  - rewrite IH.
    destruct (list_find _ rest) as [[k c']|]; reflexivity.
Qed.

Lemma fits_true (max_width : Q) (s : str) :
  fits textlength max_width s = true <-> (textlength s <= max_width)%Q.
Proof. unfold fits. apply Qle_bool_iff. Qed.

(** The lengths of the truncations count down from [len(city) - 1] to 1. *)
Lemma truncations_lengths (city : str) :
  map length (truncations city) = reverse (seq 1 (length city - 1)).
Proof.
  unfold truncations. rewrite map_map.
  rewrite <- (map_id (reverse (seq 1 (length city - 1)))) at 2.
  apply map_ext_in. intros k Hk.
  apply list_elem_of_In, elem_of_reverse, list_elem_of_In, in_seq in Hk.
  rewrite length_take. lia.
Qed.

Lemma truncations_prefixes (city : str) :
  Forall (fun t => t `prefix_of` city) (truncations city).
Proof.
  unfold truncations. apply Forall_forall. intros t Ht.
  apply list_elem_of_In, in_map_iff in Ht. destruct Ht as (k & <- & _).
  apply prefix_take.
Qed.

Lemma length_truncations (city : str) :
  length (truncations city) = (length city - 1)%nat.
Proof.
  unfold truncations. rewrite length_map, length_reverse, length_seq.
  reflexivity.
Qed.

(** What [clamp_city] computes, in one equation. *)
Lemma clamp_city_run_find (date city : str) (max_width : Q) :
  clamp_city_run textlength date city max_width =
  if fits textlength max_width (base_label date city)
  then (base_label date city, [base_label date city])
  else
    match list_find (fun c => Is_true (fits textlength max_width c))
                    (map (candidate date) (truncations city)) with
    | Some (k, c) =>
        (c, base_label date city ::
            take (S k) (map (candidate date) (truncations city)))
    | None =>
        (date, base_label date city ::
               map (candidate date) (truncations city))
    end.
Proof.
  unfold clamp_city_run.
  destruct (fits textlength max_width (base_label date city)); [reflexivity|].
  rewrite clamp_loop_first_fit, first_fit_find.
  destruct (list_find _ _) as [[k c]|]; reflexivity.
Qed.

Lemma clamp_city_keeps_date (date city : str) (max_width : Q) :
  date `prefix_of` clamp_city textlength date city max_width.
Proof.
  unfold clamp_city. rewrite clamp_city_run_find.
  destruct (fits textlength max_width (base_label date city)); simpl.
  - apply prefix_app_r. reflexivity.
  - destruct (list_find _ _) as [[k c]|] eqn:Hfind; simpl; [|reflexivity].
    apply list_find_Some in Hfind as (Hk & _ & _).
    apply list_elem_of_lookup_2, list_elem_of_In, in_map_iff in Hk.
    destruct Hk as (t & <- & _). apply prefix_app_r. reflexivity.
Qed.

(** C1.  For every date, city and maximum width, [clamp_city] returns (it is
    a total function: no input makes it raise) a label whose measured width
    is at most the maximum width, or else exactly the date; and the label is
    never empty when the date is not. *)
Theorem clamp_city_fits_or_date (date city : str) (max_width : Q) :
  ((textlength (clamp_city textlength date city max_width) <= max_width)%Q
   \/ clamp_city textlength date city max_width = date)
  /\ (date <> [] -> clamp_city textlength date city max_width <> []).
Proof.
  split.
  - unfold clamp_city. rewrite clamp_city_run_find.
    destruct (fits textlength max_width (base_label date city)) eqn:Hbase;
      simpl.
    + left. apply fits_true, Hbase.
    + destruct (list_find _ _) as [[k c]|] eqn:Hfind; simpl; [|right; reflexivity].
      left. apply list_find_Some in Hfind as (_ & Hc & _).
      apply fits_true, Is_true_true, Hc.
  - intros Hdate Hempty.
    pose proof (clamp_city_keeps_date date city max_width) as Hpre.
    rewrite Hempty in Hpre. apply prefix_nil_inv in Hpre. contradiction.
Qed.

(** C3.  When the full composition does not fit, the strings measured after
    it are the candidates [date — truncated…] for the truncations of the
    city taken in order, up to and including the first one that fits; that
    candidate is returned (the date when none fits).  The truncations are
    prefixes of the city and their lengths count down one by one from
    [len(city) - 1] to 1. *)
Theorem clamp_city_first_fitting_truncation (date city : str) (max_width : Q) :
  fits textlength max_width (base_label date city) = false ->
  clamp_city_run textlength date city max_width =
    match list_find (fun c => Is_true (fits textlength max_width c))
                    (map (candidate date) (truncations city)) with
    | Some (k, c) =>
        (c, base_label date city ::
            take (S k) (map (candidate date) (truncations city)))
    | None =>
        (date, base_label date city ::
               map (candidate date) (truncations city))
    end
  /\ map length (truncations city) = reverse (seq 1 (length city - 1))
  /\ Forall (fun t => t `prefix_of` city) (truncations city).
Proof.
  intros Hbase. split; [|split].
  - rewrite clamp_city_run_find, Hbase. reflexivity.
  - apply truncations_lengths.
  - apply truncations_prefixes.
Qed.

(** C10.  The truncation loop terminates (it is defined by well-founded
    recursion on the length of the trimmed string) after at most
    [len(city) - 1] iterations: it measures one candidate per iteration, the
    candidates of the truncations of the city in order, whose lengths
    decrease by one each time and end at 1.  The bound is a natural number:
    a city of at most one character gives no iteration at all. *)
Theorem clamp_loop_iterations (date city : str) (max_width : Q) :
  (length (clamp_loop textlength date city max_width).2 <= length city - 1)%nat
  /\ (clamp_loop textlength date city max_width).2 =
      take (length (clamp_loop textlength date city max_width).2)
           (map (candidate date) (truncations city))
  /\ map length (truncations city) = reverse (seq 1 (length city - 1))
  /\ length (drop_last city) = (length city - 1)%nat.
Proof.
  rewrite clamp_loop_first_fit, first_fit_find.
  pose proof (length_truncations city) as Hlen.
  destruct (list_find _ _) as [[k c]|] eqn:Hfind; simpl.
  - apply list_find_Some in Hfind as (Hk & _ & _).
    apply lookup_lt_Some in Hk. rewrite length_map in Hk.
    rewrite length_take, length_map.
    repeat split.
    + lia.
    + f_equal. lia.
    + apply truncations_lengths.
    + apply length_drop_last.
  - rewrite length_map. repeat split.
    + lia.
    + rewrite <- (length_map (candidate date)), firstn_all. reflexivity.
    + apply truncations_lengths.
    + apply length_drop_last.
Qed.

End ClampCityFacts.

(** ** Properties of the compositor, the label text and the renderer *)

Section ProcessImageFacts.

Variable Px : Type.
Variable resample : Z * Z -> Z * Z -> Px -> Px.
Variable gaussian_blur : Z -> Z * Z -> Px -> Px.
Variable paste_px : Z * Z -> Px -> Z * Z -> Px -> Z * Z -> Px.
Variable textlength : str -> Q.
Variable ascent descent : Z.
Variable piexif_load : list byte -> result exif_dict.
Variable decode : list byte -> result str.
Variable strptime : str -> result datetime.
Variable geolocator : option (Q * Q -> result (option raw_dict)).

Local Abbreviation compose := (compose Px resample gaussian_blur paste_px).
Local Abbreviation composite := (composite Px resample gaussian_blur paste_px).
Local Abbreviation background := (background Px resample gaussian_blur).
Local Abbreviation image_label :=
  (image_label Px piexif_load decode strptime geolocator).
Local Abbreviation process_image :=
  (process_image Px resample gaussian_blur paste_px textlength ascent descent
                 piexif_load decode strptime geolocator).

(** C2.  The canvas [compose] returns is the square built at [max(w, h)]
    (the source resampled to the square and blurred) with the original,
    unscaled, pasted into it at the floor offsets, resampled to
    [OUTPUT_SIZE] by [OUTPUT_SIZE].  The offsets centre the original (the
    box lies inside the square and the two margins differ by at most one
    pixel), and the final canvas is [OUTPUT_SIZE] by [OUTPUT_SIZE] whatever
    the aspect ratio of the source. *)
Theorem compose_square_centered (img : Image Px) :
  let w := (size Px img).1 in
  let h := (size Px img).2 in
  let s := square_size Px img in
  s = Z.max w h
  /\ size Px (background img) = (s, s)
  /\ paste_box Px img = ((s - w) `div` 2, (s - h) `div` 2)
  /\ pixels Px (composite img) =
       paste_px (s, s) (pixels Px (background img))
                (w, h) (pixels Px img) (paste_box Px img)
  /\ size Px (composite img) = (s, s)
  /\ (0 <= (paste_box Px img).1 /\ (paste_box Px img).1 + w <= s
      /\ 0 <= (s - w) - 2 * (paste_box Px img).1 <= 1)
  /\ (0 <= (paste_box Px img).2 /\ (paste_box Px img).2 + h <= s
      /\ 0 <= (s - h) - 2 * (paste_box Px img).2 <= 1)
  /\ size Px (compose img) = (OUTPUT_SIZE, OUTPUT_SIZE)
  /\ pixels Px (compose img) =
       resample (Z.max w h, Z.max w h) (OUTPUT_SIZE, OUTPUT_SIZE)
         (paste_px (Z.max w h, Z.max w h)
            (gaussian_blur BLUR_RADIUS (Z.max w h, Z.max w h)
               (resample (w, h) (Z.max w h, Z.max w h) (pixels Px img)))
            (w, h) (pixels Px img)
            ((Z.max w h - w) `div` 2, (Z.max w h - h) `div` 2))
  /\ compose img =
       resize Px resample
         (paste Px paste_px
            (blur Px gaussian_blur
               (resize Px resample img (Z.max w h, Z.max w h)) BLUR_RADIUS)
            img ((Z.max w h - w) `div` 2, (Z.max w h - h) `div` 2))
         (OUTPUT_SIZE, OUTPUT_SIZE).
Proof.
  destruct img as [[w h] px info]. cbn -[Z.div Z.max Z.mul].
  unfold square_size, paste_box. cbn -[Z.div Z.max Z.mul].
  pose proof (Z.le_max_l w h) as Hw.
  pose proof (Z.le_max_r w h) as Hh.
  pose proof (Z.div_mod (Z.max w h - w) 2 ltac:(lia)) as Hdw.
  pose proof (Z.mod_pos_bound (Z.max w h - w) 2 ltac:(lia)) as Hmw.
  pose proof (Z.div_mod (Z.max w h - h) 2 ltac:(lia)) as Hdh.
  pose proof (Z.mod_pos_bound (Z.max w h - h) 2 ltac:(lia)) as Hmh.
  repeat split; try reflexivity; lia.
Qed.

(** C4.  Without a city the label text is the date, unchanged, for every
    maximum width, and nothing is measured to obtain it. *)
Theorem label_text_without_city (date : str) (max_width : Q) :
  label_text textlength (date, None) max_width = date
  /\ label_text_run textlength (date, None) max_width = (date, []).
Proof. split; reflexivity. Qed.

(** The label is drawn by [render], once, or not at all. *)
Lemma process_image_drawn (img : Image Px) :
  process_image img =
  {| canvas := compose img;
     drawn := match image_label img with
              | Some label =>
                  [render textlength ascent descent
                     (label_text textlength label
                        (inject_Z max_width))]
              | None => []
              end |}.
Proof.
  unfold process_image.
  destruct (image_label img); reflexivity.
Qed.

Lemma image_label_no_date (img : Image Px) :
  (forall exif,
      piexif_load (default [] (info_exif Px img)) = Ok exif ->
      exif_date decode strptime exif = None) ->
  image_label img = None.
Proof.
  intros Hdate. unfold image_label.
  destruct (piexif_load (default [] (info_exif Px img))) as [exif|] eqn:Hload;
    [|reflexivity].
  simpl. rewrite (Hdate exif eq_refl). reflexivity.
Qed.

(** C8.  A label text is drawn at
    [(OUTPUT_SIZE - text_width - TEXT_MARGIN,
      OUTPUT_SIZE - text_height - TEXT_MARGIN)], where [text_width] is the
    measured width of that text and [text_height] is [ascent + descent] of
    the font, the same for every text; and [process_image] draws the text
    of the label of its image so, once, and draws nothing when the image
    has no label. *)
Theorem render_anchor (img : Image Px) (txt : str) :
  let d := render textlength ascent descent txt in
  text d = txt
  /\ xy d = ((inject_Z OUTPUT_SIZE - textlength txt - inject_Z TEXT_MARGIN)%Q,
             inject_Z (OUTPUT_SIZE - (ascent + descent) - TEXT_MARGIN))
  /\ ((xy d).1 + textlength txt + inject_Z TEXT_MARGIN == inject_Z OUTPUT_SIZE)%Q
  /\ ((xy d).2 + inject_Z (ascent + descent) + inject_Z TEXT_MARGIN
      == inject_Z OUTPUT_SIZE)%Q
  /\ (forall txt', (xy (render textlength ascent descent txt')).2 = (xy d).2)
  /\ Forall (fun d' => d' = render textlength ascent descent (text d'))
            (drawn Px (process_image img))
  /\ (length (drawn Px (process_image img)) <= 1)%nat
  /\ drawn Px (process_image img) =
       match image_label img with
       | Some label =>
           let t := label_text textlength label (inject_Z max_width) in
           [ {| xy := ((inject_Z OUTPUT_SIZE - textlength t
                        - inject_Z TEXT_MARGIN)%Q,
                       inject_Z (OUTPUT_SIZE - (ascent + descent)
                                 - TEXT_MARGIN));
                text := t |} ]
       | None => []
       end.
Proof.
  cbn zeta. repeat split.
  - simpl. ring.
  - unfold Qeq. cbn. lia.
  - rewrite process_image_drawn. simpl.
    destruct (image_label img); constructor; [reflexivity|constructor].
  - rewrite process_image_drawn. simpl.
    destruct (image_label img); simpl; lia.
  - rewrite process_image_drawn. simpl.
    destruct (image_label img); reflexivity.
Qed.

(** C9.  When the metadata of an image yields no capture date, nothing is
    drawn and the saved canvas is the un-annotated composite, whatever the
    geocoder answers for its position. *)
Theorem no_date_no_label (img : Image Px) :
  (forall exif,
      piexif_load (default [] (info_exif Px img)) = Ok exif ->
      exif_date decode strptime exif = None) ->
  process_image img = {| canvas := compose img; drawn := [] |}.
Proof.
  intros Hdate. rewrite process_image_drawn.
  rewrite (image_label_no_date img Hdate). reflexivity.
Qed.

End ProcessImageFacts.

(** ** Properties of the metadata extractor *)

Lemma MONTHS_NL_table :
  MONTHS_NL = list_to_map (zip (seqZ 1 12) month_abbrevs).
Proof. reflexivity. Qed.

Lemma MONTHS_NL_lookup (m : Z) :
  1 <= m <= 12 -> MONTHS_NL !! m = Some (month_abbrev m).
Proof.
  intros Hm.
  assert (m = 1 \/ m = 2 \/ m = 3 \/ m = 4 \/ m = 5 \/ m = 6 \/ m = 7
          \/ m = 8 \/ m = 9 \/ m = 10 \/ m = 11 \/ m = 12) as Hcases by lia.
  repeat (destruct Hcases as [->|Hcases]; [reflexivity|]).
  subst m. reflexivity.
Qed.

Lemma MONTHS_NL_keys (m : Z) :
  is_Some (MONTHS_NL !! m) <-> 1 <= m <= 12.
Proof.
  split.
  - intros [name Hname]. unfold MONTHS_NL in Hname.
    apply elem_of_list_to_map_2 in Hname.
    repeat (apply elem_of_cons in Hname as [Heq|Hname];
            [injection Heq as -> _; lia|]).
    apply elem_of_nil in Hname. contradiction.
  - intros Hm. rewrite MONTHS_NL_lookup by exact Hm. eauto.
Qed.

Lemma strptime_padded_month (raw : str) (dt : datetime) :
  strptime_padded raw = Ok dt -> 1 <= month dt <= 12.
Proof.
  unfold strptime_padded. destruct (padded_fields raw) as [d|]; [|discriminate].
  destruct (valid_datetime d) eqn:Hvalid; [|discriminate].
  intros [= <-]. unfold valid_datetime in Hvalid.
  repeat (apply andb_prop in Hvalid as [Hvalid ?]). lia.
Qed.

Section ExifDateFacts.

Variable decode : list byte -> result str.
Variable strptime : str -> result datetime.

(** [datetime] objects have a month between 1 and 12. *)
Hypothesis strptime_month :
  forall raw dt, strptime raw = Ok dt -> 1 <= month dt <= 12.

(** C5.  [exif_date] returns [day month_abbrev], the abbreviation taken from
    the 12-entry table, when the original-capture timestamp is there, is a
    byte string, decodes and parses; in every other case it returns [None].
    It is a total function: no metadata block makes it raise. *)
Theorem exif_date_parses (exif : exif_dict) :
  exif_date decode strptime exif =
    match capture_timestamp decode strptime exif with
    | Some dt =>
        Some (str_of_int (day dt) ++ [space] ++ month_abbrev (month dt))
    | None => None
    end
  /\ length month_abbrevs = 12%nat
  /\ MONTHS_NL = list_to_map (zip (seqZ 1 12) month_abbrevs).
Proof.
  split; [|split; reflexivity].
  unfold exif_date, capture_timestamp, getitem.
  destruct (exif !! "Exif") as [e|]; [|reflexivity]. simpl.
  destruct (e !! DateTimeOriginal) as [[b|n|l]|]; try reflexivity. simpl.
  destruct (decode b) as [raw|]; [|reflexivity]. simpl.
  destruct (strptime raw) as [dt|] eqn:Hdt; [|reflexivity].
  pose proof (MONTHS_NL_lookup (month dt) (strptime_month _ _ Hdt)) as Hm.
  unfold str in *. change (Ok dt ≫= ?k) with (k dt). cbv beta.
  rewrite Hm. reflexivity.
Qed.

End ExifDateFacts.

(** The value of a DMS triple with non-zero denominators. *)
Lemma dms_to_deg_value (dn dd mn md sn sd : Z) (ref : exif_value) :
  dd <> 0 -> md <> 0 -> sd <> 0 ->
  dms_to_deg
    (ETuple [ETuple [EInt dn; EInt dd]; ETuple [EInt mn; EInt md];
             ETuple [EInt sn; EInt sd]]) ref =
  let value :=
    (inject_Z dn / inject_Z dd + (inject_Z mn / inject_Z md) / 60
     + (inject_Z sn / inject_Z sd) / 3600)%Q in
  Ok (if south_or_west ref then (- value)%Q else value).
Proof.
  intros Hd Hm Hs. unfold dms_to_deg. simpl.
  rewrite !decide_False by assumption. reflexivity.
Qed.

Lemma south_or_west_iff (ref : exif_value) :
  south_or_west ref = true <->
  ref = EBytes [x53] \/ ref = EBytes [x57].
Proof.
  split.
  - destruct ref as [[|b [|? ?]]|?|?]; simpl; try discriminate.
    intros H. apply orb_prop in H as [H|H];
      apply Byte.byte_dec_bl in H; subst; auto.
  - intros [->| ->]; reflexivity.
Qed.

(** C6.  For a DMS triple with non-zero denominators [dms_to_deg] returns
    [d + m/60 + s/3600], each component the quotient of its numerator by
    its denominator, negated exactly when the reference is [S] or [W]. *)
Theorem dms_to_deg_formula (dn dd mn md sn sd : Z) (ref : exif_value) :
  dd <> 0 -> md <> 0 -> sd <> 0 ->
  exists v : Q,
    dms_to_deg
      (ETuple [ETuple [EInt dn; EInt dd]; ETuple [EInt mn; EInt md];
               ETuple [EInt sn; EInt sd]]) ref = Ok v
    /\ (v == (if south_or_west ref then -1 else 1)
             * (inject_Z dn / inject_Z dd
                + (inject_Z mn / inject_Z md) / 60
                + (inject_Z sn / inject_Z sd) / 3600))%Q
    /\ (south_or_west ref = true <->
        ref = EBytes [x53] \/ ref = EBytes [x57]).
Proof.
  intros Hd Hm Hs. eexists. split; [|split].
  - apply dms_to_deg_value; assumption.
  - cbn zeta. destruct (south_or_west ref); ring.
  - apply south_or_west_iff.
Qed.

Section ExifCityFacts.

Variable geolocator : option (Q * Q -> result (option raw_dict)).

Lemma gps_coordinates_missing (exif : exif_dict) :
  gps_field_missing exif -> gps_coordinates exif = Raise.
Proof.
  intros Hmiss. unfold gps_coordinates, getitem.
  destruct (exif !! "GPS") as [gps|] eqn:Hgps; [|reflexivity].
  destruct (Hmiss gps Hgps) as (tag & Htag & Hnone).
  change (Ok gps ≫= ?k) with (k gps). cbv beta.
  destruct (gps !! GPSLatitude) as [lat|] eqn:Hlat; [|reflexivity].
  change (Ok lat ≫= ?k) with (k lat). cbv beta.
  destruct (gps !! GPSLatitudeRef) as [latref|] eqn:Hlatref; [|reflexivity].
  change (Ok latref ≫= ?k) with (k latref). cbv beta.
  destruct (dms_to_deg lat latref) as [la|]; [|reflexivity].
  change (Ok la ≫= ?k) with (k la). cbv beta.
  destruct (gps !! GPSLongitude) as [lon|] eqn:Hlon; [|reflexivity].
  change (Ok lon ≫= ?k) with (k lon). cbv beta.
  destruct (gps !! GPSLongitudeRef) as [lonref|] eqn:Hlonref; [|reflexivity].
  exfalso.
  repeat (apply elem_of_cons in Htag as [->|Htag]; [congruence|]).
  apply elem_of_nil in Htag. contradiction.
Qed.

Lemma city_of_address (fields : gmap string str) (raw : raw_dict) :
  raw !! "address" = Some (RRecord fields) ->
  city_of_location (Some raw) =
  Ok (first_nonempty
        [fields !! "city"; fields !! "town"; fields !! "village"]).
Proof.
  intros Haddr. unfold city_of_location. rewrite Haddr. simpl.
  unfold first_nonempty.
  destruct (fields !! "city") as [[|? ?]|];
    destruct (fields !! "town") as [[|? ?]|];
    destruct (fields !! "village") as [[|? ?]|]; reflexivity.
Qed.

(** C7.  [exif_city] returns the first non-empty of the address fields
    city, town, village, in that order.  It returns [None] when there is no
    geocoder, when a GPS field is missing, when the lookup raises or finds
    nothing, and when the answer has no address record.  It is a total
    function (no metadata block makes it raise) and it calls the geocoder at
    most once. *)
Theorem exif_city_priority (exif : exif_dict) :
  (geolocator = None -> exif_city geolocator exif = None)
  /\ (gps_field_missing exif -> exif_city geolocator exif = None)
  /\ (forall reverse coords,
        geolocator = Some reverse ->
        gps_coordinates exif = Ok coords ->
        match reverse coords with
        | Ok (Some raw) =>
            match raw !! "address" with
            | Some (RRecord fields) =>
                exif_city geolocator exif =
                first_nonempty
                  [fields !! "city"; fields !! "town"; fields !! "village"]
            | _ => exif_city geolocator exif = None
            end
        | _ => exif_city geolocator exif = None
        end)
  /\ (length (exif_city_lookups geolocator exif) <= 1)%nat.
Proof.
  unfold exif_city, exif_city_lookups, exif_city_run.
  split; [|split; [|split]].
  - intros ->. reflexivity.
  - intros Hmiss. rewrite (gps_coordinates_missing exif Hmiss).
    destruct geolocator; reflexivity.
  - intros reverse coords -> ->. simpl.
    destruct (reverse coords) as [[raw|]|]; try reflexivity.
    change (Ok (Some raw) ≫= ?k) with (k (Some raw)). cbv beta.
    destruct (raw !! "address") as [[| | |fields]|] eqn:Haddr.
    + unfold city_of_location. rewrite Haddr. reflexivity.
    + unfold city_of_location. rewrite Haddr. reflexivity.
    + unfold city_of_location. rewrite Haddr. reflexivity.
    + rewrite (city_of_address fields raw Haddr). reflexivity.
    + unfold city_of_location. rewrite Haddr. reflexivity.
  - destruct geolocator; [|simpl; lia].
    destruct (gps_coordinates exif); simpl; lia.
Qed.

End ExifCityFacts.

(** ** The theorems at the sample collaborators *)

Lemma clamp_city_fits_or_date_witness :
  lit "3 jan" <> []
  /\ clamp_city mono_textlength (lit "3 jan") (lit "Amsterdam") 300 <> [].
Proof.
  assert (lit "3 jan" <> []) as Hdate by (vm_compute; discriminate).
  split; [exact Hdate|].
  apply (clamp_city_fits_or_date mono_textlength
           (lit "3 jan") (lit "Amsterdam") 300).
  exact Hdate.
Defined.

Lemma clamp_city_first_fitting_truncation_witness :
  fits mono_textlength 300 (base_label (lit "3 jan") (lit "Amsterdam")) = false
  /\ clamp_city mono_textlength (lit "3 jan") (lit "Amsterdam") 300
     = candidate (lit "3 jan") (lit "Amster").
Proof.
  assert (fits mono_textlength 300
            (base_label (lit "3 jan") (lit "Amsterdam")) = false) as Hbase
    by (vm_compute; reflexivity).
  split; [exact Hbase|].
  destruct (clamp_city_first_fitting_truncation mono_textlength
              (lit "3 jan") (lit "Amsterdam") 300 Hbase) as [Hrun _].
  unfold clamp_city. rewrite Hrun. vm_compute. reflexivity.
Defined.

Lemma exif_date_parses_witness :
  exif_date decode_ascii strptime_padded sample_exif = Some (lit "3 jan").
Proof.
  destruct (exif_date_parses decode_ascii strptime_padded
              strptime_padded_month sample_exif) as [Hdate _].
  rewrite Hdate. vm_compute. reflexivity.
Defined.

Lemma dms_to_deg_formula_witness :
  exists v : Q,
    dms_to_deg
      (ETuple [ETuple [EInt 33; EInt 1]; ETuple [EInt 51; EInt 1];
               ETuple [EInt 54; EInt 1]]) (EBytes [x53]) = Ok v
    /\ (v == - (33865 # 1000))%Q.
Proof.
  destruct (dms_to_deg_formula 33 1 51 1 54 1 (EBytes [x53]))
    as (v & Hv & Hval & _); try lia.
  exists v. split; [exact Hv|].
  rewrite Hval. vm_compute. reflexivity.
Defined.

Lemma exif_city_priority_witness :
  exif_city None sample_exif = None
  /\ exif_city (Some sample_reverse) (∅ : exif_dict) = None
  /\ exif_city (Some sample_reverse) sample_exif = Some (lit "Amsterdam")
  /\ exif_city (Some (fun _ => Raise)) sample_exif = None.
Proof.
  split; [|split; [|split]].
  - exact (proj1 (exif_city_priority None sample_exif) eq_refl).
  - apply (proj1 (proj2 (exif_city_priority (Some sample_reverse) ∅))).
    intros gps Hgps. vm_compute in Hgps. discriminate.
  - destruct (exif_city_priority (Some sample_reverse) sample_exif)
      as (_ & _ & Hcity & _).
    specialize (Hcity sample_reverse _ eq_refl eq_refl).
    vm_compute in Hcity. vm_compute. exact Hcity.
  - destruct (exif_city_priority (Some (fun _ => Raise)) sample_exif)
      as (_ & _ & Hcity & _).
    exact (Hcity _ _ eq_refl eq_refl).
Defined.

Lemma no_date_no_label_witness :
  exif_city (Some sample_reverse) undated_exif = Some (lit "Amsterdam")
  /\ drawn Z
       (process_image Z (fun _ _ p => p) (fun _ _ p => p)
          (fun _ p _ _ _ => p) mono_textlength 67 17 sample_load decode_ascii
          strptime_padded (Some sample_reverse)
          (grey_image 4000 3000 (Some [x02]))) = [].
Proof.
  split; [vm_compute; reflexivity|].
  rewrite (no_date_no_label Z (fun _ _ p => p) (fun _ _ p => p)
             (fun _ p _ _ _ => p) mono_textlength 67 17 sample_load
             decode_ascii strptime_padded (Some sample_reverse)
             (grey_image 4000 3000 (Some [x02]))).
  - reflexivity.
  - intros exif Hload. change (Ok undated_exif = Ok exif) in Hload.
    injection Hload as <-. vm_compute. reflexivity.
Defined.

(** ** Further properties of the label builder *)

Section ClampCityMore.

Variable textlength : str -> Q.

Lemma truncations_elem (city t : str) :
  t ∈ truncations city ->
  exists k, (1 <= k < length city)%nat /\ t = take k city.
Proof.
  unfold truncations. intros Ht.
  apply list_elem_of_In, in_map_iff in Ht. destruct Ht as (k & <- & Hk).
  apply list_elem_of_In, elem_of_reverse, list_elem_of_In, in_seq in Hk.
  exists k. split; [lia|reflexivity].
Qed.

Lemma candidate_elem (date city c : str) :
  c ∈ map (candidate date) (truncations city) ->
  exists k, (1 <= k < length city)%nat /\ c = candidate date (take k city).
Proof.
  intros Hc. apply list_elem_of_In, in_map_iff in Hc.
  destruct Hc as (t & <- & Ht).
  apply list_elem_of_In, truncations_elem in Ht as (k & Hk & ->). eauto.
Qed.

Lemma candidate_not_date (date t : str) : candidate date t <> date.
Proof.
  intros H. apply (f_equal length) in H. unfold candidate in H.
  rewrite !length_app in H. simpl in H. lia.
Qed.

Lemma base_label_not_date (date city : str) : base_label date city <> date.
Proof.
  intros H. apply (f_equal length) in H. unfold base_label in H.
  rewrite !length_app in H. simpl in H. lia.
Qed.

(** X1.  "Trim city ONLY if needed": when the full label fits it is
    returned with the city untouched and nothing else is measured; when it
    does not fit, the result is the date alone, or the date, the dash, a
    prefix of the city of at least one and fewer than all of its characters,
    and the ellipsis, and then it fits. *)
Theorem clamp_city_trims_only_if_needed (date city : str) (max_width : Q) :
  (fits textlength max_width (base_label date city) = true ->
   clamp_city_run textlength date city max_width =
   (base_label date city, [base_label date city]))
  /\ (fits textlength max_width (base_label date city) = false ->
      clamp_city textlength date city max_width = date
      \/ exists k,
           (1 <= k < length city)%nat
           /\ clamp_city textlength date city max_width =
              candidate date (take k city)
           /\ fits textlength max_width
                (clamp_city textlength date city max_width) = true).
Proof.
  split; intros Hbase.
  - rewrite clamp_city_run_find, Hbase. reflexivity.
  - unfold clamp_city. rewrite clamp_city_run_find, Hbase.
    destruct (list_find _ _) as [[i c]|] eqn:Hfind; simpl; [|left; reflexivity].
    right. apply list_find_Some in Hfind as (Hi & Hc & _).
    apply list_elem_of_lookup_2, candidate_elem in Hi as (k & Hk & ->).
    exists k. split; [exact Hk|]. split; [reflexivity|].
    apply Is_true_true, Hc.
Qed.

(** X2.  The date-only fallback is taken exactly when nothing fits: neither
    the full label nor the candidate of any truncation of the city. *)
Theorem clamp_city_date_only_iff (date city : str) (max_width : Q) :
  clamp_city textlength date city max_width = date <->
  fits textlength max_width (base_label date city) = false
  /\ Forall (fun t => fits textlength max_width (candidate date t) = false)
            (truncations city).
Proof.
  unfold clamp_city. rewrite clamp_city_run_find.
  destruct (fits textlength max_width (base_label date city)) eqn:Hbase; simpl.
  - split.
    + intros H. exfalso. exact (base_label_not_date date city H).
    + intros [H _]. discriminate.
  - destruct (list_find _ _) as [[i c]|] eqn:Hfind; simpl.
    + apply list_find_Some in Hfind as (Hi & Hc & _).
      pose proof Hi as Hi'.
      apply list_elem_of_lookup_2, candidate_elem in Hi' as (k & Hk & ->).
      split.
      * intros H. exfalso. exact (candidate_not_date _ _ H).
      * intros [_ Hall]. exfalso.
        apply list_elem_of_lookup_2, list_elem_of_In, in_map_iff in Hi.
        destruct Hi as (t & Ht & Hin).
        rewrite Forall_forall in Hall.
        apply list_elem_of_In in Hin. specialize (Hall t Hin).
        rewrite Ht in Hall. rewrite Hall in Hc. exact Hc.
    + split; [|reflexivity]. intros _. split; [reflexivity|].
      apply list_find_None in Hfind. rewrite Forall_forall in Hfind.
      apply Forall_forall. intros t Ht.
      specialize (Hfind (candidate date t)).
      destruct (fits textlength max_width (candidate date t)); [|reflexivity].
      exfalso. apply Hfind; [|exact I].
      apply list_elem_of_In, in_map, list_elem_of_In, Ht.
Qed.

(** X3.  [clamp_city] measures the full label first, and at most
    [max(1, len(city))] strings in all, each of them beginning with the
    date. *)
Theorem clamp_city_measures_at_most (date city : str) (max_width : Q) :
  clamp_city_measured textlength date city max_width !! 0%nat =
    Some (base_label date city)
  /\ (length (clamp_city_measured textlength date city max_width)
      <= Nat.max 1 (length city))%nat
  /\ Forall (fun s => date `prefix_of` s)
            (clamp_city_measured textlength date city max_width).
Proof.
  unfold clamp_city_measured. rewrite clamp_city_run_find.
  assert (date `prefix_of` base_label date city) as Hpre
    by (apply prefix_app_r; reflexivity).
  assert (Forall (fun s => date `prefix_of` s)
            (map (candidate date) (truncations city))) as Hall.
  { apply Forall_forall. intros c Hc.
    apply candidate_elem in Hc as (k & _ & ->).
    apply prefix_app_r. reflexivity. }
  pose proof (length_truncations city) as Hlen.
  destruct (fits textlength max_width (base_label date city)); simpl.
  - split; [reflexivity|]. split; [lia|]. repeat constructor. exact Hpre.
  - destruct (list_find _ _) as [[i c]|] eqn:Hfind; simpl.
    + apply list_find_Some in Hfind as (Hi & _ & _).
      apply lookup_lt_Some in Hi. rewrite length_map in Hi.
      split; [reflexivity|]. split.
      * rewrite length_take, length_map. lia.
      * constructor; [exact Hpre|]. apply Forall_take, Hall.
    + split; [reflexivity|]. split.
      * rewrite length_map. lia.
      * constructor; [exact Hpre|exact Hall].
Qed.

End ClampCityMore.

(** ** Further properties of the metadata extractor *)

Ltac raise_step :=
  match goal with
  | |- (?r ≫= _) = Raise => destruct r; simpl; try reflexivity
  end.

Lemma quotient_nonneg (n d : Z) :
  0 <= n -> 0 < d -> (0 <= inject_Z n / inject_Z d)%Q.
Proof.
  intros Hn Hd. unfold Qdiv. apply Qmult_le_0_compat.
  - unfold Qle. simpl. lia.
  - apply Qinv_le_0_compat. unfold Qle. simpl. lia.
Qed.

(** X4.  [dms_to_deg] raises, whatever the reference, when a denominator is
    zero, when the coordinate has fewer than three components, and when it
    is a bare integer. *)
Theorem dms_to_deg_raises (ref : exif_value) :
  (forall dn dd mn md sn sd : Z,
      dd = 0 \/ md = 0 \/ sd = 0 ->
      dms_to_deg
        (ETuple [ETuple [EInt dn; EInt dd]; ETuple [EInt mn; EInt md];
                 ETuple [EInt sn; EInt sd]]) ref = Raise)
  /\ (forall l : list exif_value,
        (length l < 3)%nat -> dms_to_deg (ETuple l) ref = Raise)
  /\ (forall n : Z, dms_to_deg (EInt n) ref = Raise).
Proof.
  split; [|split].
  - intros dn dd mn md sn sd Hzero. unfold dms_to_deg. simpl.
    destruct (decide (dd = 0)); [reflexivity|]. simpl.
    destruct (decide (md = 0)); [reflexivity|]. simpl.
    destruct (decide (sd = 0)); [reflexivity|]. lia.
  - intros l Hl. unfold dms_to_deg.
    destruct l as [|a [|b [|c l]]]; simpl in Hl; try lia.
    + reflexivity.
    + change (subscript (ETuple [a]) 0) with (Ok a). simpl.
      repeat raise_step.
    + change (subscript (ETuple [a; b]) 0) with (Ok a).
      change (subscript (ETuple [a; b]) 1) with (Ok b).
      change (subscript (ETuple [a; b]) 2) with (@Raise exif_value). simpl.
      repeat raise_step.
  - intros n. reflexivity.
Qed.

(** X5.  For a coordinate of unsigned rationals (numerators at least zero,
    denominators positive), the result is at most zero for the references
    [S] and [W] and at least zero for every other reference. *)
Theorem dms_to_deg_sign (dn dd mn md sn sd : Z) (ref : exif_value) :
  0 <= dn -> 0 < dd -> 0 <= mn -> 0 < md -> 0 <= sn -> 0 < sd ->
  exists v : Q,
    dms_to_deg
      (ETuple [ETuple [EInt dn; EInt dd]; ETuple [EInt mn; EInt md];
               ETuple [EInt sn; EInt sd]]) ref = Ok v
    /\ (if south_or_west ref then (v <= 0)%Q else (0 <= v)%Q).
Proof.
  intros Hdn Hdd Hmn Hmd Hsn Hsd.
  rewrite dms_to_deg_value by lia. cbn zeta.
  assert (0 <= inject_Z dn / inject_Z dd
               + inject_Z mn / inject_Z md / 60
               + inject_Z sn / inject_Z sd / 3600)%Q as Hsum.
  { pose proof (quotient_nonneg dn dd Hdn Hdd) as H1.
    pose proof (quotient_nonneg mn md Hmn Hmd) as H2.
    pose proof (quotient_nonneg sn sd Hsn Hsd) as H3.
    assert (0 <= inject_Z mn / inject_Z md / 60)%Q as H2'.
    { unfold Qdiv at 1. apply Qmult_le_0_compat; [exact H2|].
      apply Qinv_le_0_compat. unfold Qle. simpl. lia. }
    assert (0 <= inject_Z sn / inject_Z sd / 3600)%Q as H3'.
    { unfold Qdiv at 1. apply Qmult_le_0_compat; [exact H3|].
      apply Qinv_le_0_compat. unfold Qle. simpl. lia. }
    replace 0%Q with (0 + 0 + 0)%Q by reflexivity.
    repeat apply Qplus_le_compat; assumption. }
  eexists. split; [reflexivity|].
  destruct (south_or_west ref); [|exact Hsum].
  apply Qopp_le_compat in Hsum. exact Hsum.
Qed.

Section ExifCityMore.

Variable geolocator : option (Q * Q -> result (option raw_dict)).

Lemma gps_coordinates_ok (exif : exif_dict) (gps : ifd)
    (lat_dms lat_ref lon_dms lon_ref : exif_value) (lat lon : Q) :
  exif !! "GPS" = Some gps ->
  gps !! GPSLatitude = Some lat_dms ->
  gps !! GPSLatitudeRef = Some lat_ref ->
  gps !! GPSLongitude = Some lon_dms ->
  gps !! GPSLongitudeRef = Some lon_ref ->
  dms_to_deg lat_dms lat_ref = Ok lat ->
  dms_to_deg lon_dms lon_ref = Ok lon ->
  gps_coordinates exif = Ok (lat, lon).
Proof.
  intros Hgps Hlat Hlatref Hlon Hlonref Hla Hlo.
  unfold gps_coordinates, getitem.
  rewrite Hgps. change (Ok gps ≫= ?k) with (k gps). cbv beta.
  rewrite Hlat. change (Ok lat_dms ≫= ?k) with (k lat_dms). cbv beta.
  rewrite Hlatref. change (Ok lat_ref ≫= ?k) with (k lat_ref). cbv beta.
  rewrite Hla. change (Ok lat ≫= ?k) with (k lat). cbv beta.
  rewrite Hlon. change (Ok lon_dms ≫= ?k) with (k lon_dms). cbv beta.
  rewrite Hlonref. change (Ok lon_ref ≫= ?k) with (k lon_ref). cbv beta.
  rewrite Hlo. reflexivity.
Qed.

(** X6.  The geocoder is asked nothing unless it is there and the block has
    all four GPS fields and both of them convert; then it is asked once, for
    (latitude, longitude) in that order. *)
Theorem exif_city_lookup_needs_coordinates (exif : exif_dict) :
  (exif_city_lookups geolocator exif <> [] ->
   exists reverse (gps : ifd) lat_dms lat_ref lon_dms lon_ref (lat lon : Q),
     geolocator = Some reverse
     /\ exif !! "GPS" = Some gps
     /\ gps !! GPSLatitude = Some lat_dms
     /\ gps !! GPSLatitudeRef = Some lat_ref
     /\ gps !! GPSLongitude = Some lon_dms
     /\ gps !! GPSLongitudeRef = Some lon_ref
     /\ dms_to_deg lat_dms lat_ref = Ok lat
     /\ dms_to_deg lon_dms lon_ref = Ok lon
     /\ exif_city_lookups geolocator exif = [(lat, lon)])
  /\ (forall reverse (gps : ifd) lat_dms lat_ref lon_dms lon_ref (lat lon : Q),
        geolocator = Some reverse ->
        exif !! "GPS" = Some gps ->
        gps !! GPSLatitude = Some lat_dms ->
        gps !! GPSLatitudeRef = Some lat_ref ->
        gps !! GPSLongitude = Some lon_dms ->
        gps !! GPSLongitudeRef = Some lon_ref ->
        dms_to_deg lat_dms lat_ref = Ok lat ->
        dms_to_deg lon_dms lon_ref = Ok lon ->
        exif_city_lookups geolocator exif = [(lat, lon)])
  /\ (geolocator = None -> exif_city_lookups geolocator exif = [])
  /\ (gps_coordinates exif = Raise -> exif_city_lookups geolocator exif = []).
Proof.
  split; [|split; [|split]].
  - unfold exif_city_lookups, exif_city_run.
    destruct geolocator as [reverse|]; [|intros H; contradiction].
    unfold gps_coordinates, getitem.
    destruct (exif !! "GPS") as [gps|] eqn:Hgps; [|intros H; contradiction].
    change (Ok gps ≫= ?k) with (k gps). cbv beta.
    destruct (gps !! GPSLatitude) as [lat_dms|] eqn:Hlat;
      [|intros H; contradiction].
    change (Ok lat_dms ≫= ?k) with (k lat_dms). cbv beta.
    destruct (gps !! GPSLatitudeRef) as [lat_ref|] eqn:Hlatref;
      [|intros H; contradiction].
    change (Ok lat_ref ≫= ?k) with (k lat_ref). cbv beta.
    destruct (dms_to_deg lat_dms lat_ref) as [lat|] eqn:Hla;
      [|intros H; contradiction].
    change (Ok lat ≫= ?k) with (k lat). cbv beta.
    destruct (gps !! GPSLongitude) as [lon_dms|] eqn:Hlon;
      [|intros H; contradiction].
    change (Ok lon_dms ≫= ?k) with (k lon_dms). cbv beta.
    destruct (gps !! GPSLongitudeRef) as [lon_ref|] eqn:Hlonref;
      [|intros H; contradiction].
    change (Ok lon_ref ≫= ?k) with (k lon_ref). cbv beta.
    destruct (dms_to_deg lon_dms lon_ref) as [lon|] eqn:Hlo;
      [|intros H; contradiction].
    intros _. exists reverse, gps, lat_dms, lat_ref, lon_dms, lon_ref, lat, lon.
    repeat split; assumption || reflexivity.
  - intros reverse gps lat_dms lat_ref lon_dms lon_ref lat lon
           -> Hgps Hlat Hlatref Hlon Hlonref Hla Hlo.
    unfold exif_city_lookups, exif_city_run.
    rewrite (gps_coordinates_ok exif gps lat_dms lat_ref lon_dms lon_ref
               lat lon Hgps Hlat Hlatref Hlon Hlonref Hla Hlo).
    reflexivity.
  - intros ->. reflexivity.
  - intros Hraise. unfold exif_city_lookups, exif_city_run. rewrite Hraise.
    destruct geolocator; reflexivity.
Qed.

End ExifCityMore.

Lemma day_digits (d : Z) :
  1 <= d <= 31 -> (1 <= length (str_of_int d) <= 2)%nat.
Proof.
  intros Hd.
  assert (forallb (fun d => (1 <=? length (str_of_int d))%nat
                            && (length (str_of_int d) <=? 2)%nat)
                  (seqZ 1 31) = true) as Hall by (vm_compute; reflexivity).
  rewrite forallb_forall in Hall.
  specialize (Hall d). rewrite <- list_elem_of_In, elem_of_seqZ in Hall.
  specialize (Hall ltac:(lia)).
  apply andb_prop in Hall as [H1 H2].
  apply Nat.leb_le in H1. apply Nat.leb_le in H2. lia.
Qed.

Lemma month_abbrev_length (m : Z) :
  1 <= m <= 12 -> length (month_abbrev m) = 3%nat.
Proof.
  intros Hm.
  assert (m = 1 \/ m = 2 \/ m = 3 \/ m = 4 \/ m = 5 \/ m = 6 \/ m = 7
          \/ m = 8 \/ m = 9 \/ m = 10 \/ m = 11 \/ m = 12) as Hcases by lia.
  repeat (destruct Hcases as [->|Hcases]; [reflexivity|]).
  subst m. reflexivity.
Qed.

Lemma strptime_padded_range (raw : str) (dt : datetime) :
  strptime_padded raw = Ok dt ->
  1 <= month dt <= 12 /\ 1 <= day dt <= 31.
Proof.
  unfold strptime_padded. destruct (padded_fields raw) as [d|]; [|discriminate].
  destruct (valid_datetime d) eqn:Hvalid; [|discriminate].
  intros [= <-]. unfold valid_datetime in Hvalid.
  repeat (apply andb_prop in Hvalid as [Hvalid ?]).
  assert (days_in_month (year d) (month d) <= 31).
  { unfold days_in_month.
    repeat match goal with |- context [if ?b then _ else _] => destruct b end;
      lia. }
  lia.
Qed.

Section ExifDateMore.

Variable decode : list byte -> result str.
Variable strptime : str -> result datetime.

(** [datetime] objects have a month between 1 and 12 and a day between 1
    and 31. *)
Hypothesis strptime_range :
  forall raw dt, strptime raw = Ok dt ->
                 1 <= month dt <= 12 /\ 1 <= day dt <= 31.

Lemma exif_date_timestamp (exif : exif_dict) :
  exif_date decode strptime exif =
  match capture_timestamp decode strptime exif with
  | Some dt => Some (str_of_int (day dt) ++ [space] ++ month_abbrev (month dt))
  | None => None
  end.
Proof.
  unfold exif_date, capture_timestamp, getitem.
  destruct (exif !! "Exif") as [e|]; [|reflexivity]. simpl.
  destruct (e !! DateTimeOriginal) as [[b|n|l]|]; try reflexivity. simpl.
  destruct (decode b) as [raw|]; [|reflexivity]. simpl.
  destruct (strptime raw) as [dt|] eqn:Hdt; [|reflexivity].
  pose proof (MONTHS_NL_lookup (month dt)
                (proj1 (strptime_range _ _ Hdt))) as Hm.
  unfold str in *. change (Ok dt ≫= ?k) with (k dt). cbv beta.
  rewrite Hm. reflexivity.
Qed.

(** X7.  A date that [exif_date] returns is the day number without padding,
    a space and a three-letter month abbreviation: five or six characters,
    never the empty string. *)
Theorem exif_date_shape (exif : exif_dict) (s : str) :
  exif_date decode strptime exif = Some s ->
  (5 <= length s <= 6)%nat
  /\ exists dt,
       capture_timestamp decode strptime exif = Some dt
       /\ s = str_of_int (day dt) ++ [space] ++ month_abbrev (month dt)
       /\ (1 <= length (str_of_int (day dt)) <= 2)%nat
       /\ length (month_abbrev (month dt)) = 3%nat.
Proof.
  rewrite exif_date_timestamp.
  destruct (capture_timestamp decode strptime exif) as [dt|] eqn:Hts;
    [|discriminate].
  intros [= <-].
  assert (1 <= month dt <= 12 /\ 1 <= day dt <= 31) as [Hm Hd].
  { unfold capture_timestamp in Hts.
    destruct (exif !! "Exif") as [e|]; [|discriminate].
    destruct (e !! DateTimeOriginal) as [[b|?|?]|]; try discriminate.
    destruct (decode b) as [raw|]; [|discriminate].
    destruct (strptime raw) as [dt'|] eqn:Hdt; [|discriminate].
    injection Hts as ->. exact (strptime_range raw dt Hdt). }
  pose proof (day_digits (day dt) Hd) as Hdigits.
  pose proof (month_abbrev_length (month dt) Hm) as Habbrev.
  split.
  - rewrite !length_app. simpl. unfold str, char in *. lia.
  - exists dt. repeat split; reflexivity || lia.
Qed.

End ExifDateMore.

(** ** Further properties of [process_image] *)

Section ProcessImageMore.

Variable Px : Type.
Variable resample : Z * Z -> Z * Z -> Px -> Px.
Variable gaussian_blur : Z -> Z * Z -> Px -> Px.
Variable paste_px : Z * Z -> Px -> Z * Z -> Px -> Z * Z -> Px.
Variable textlength : str -> Q.
Variable ascent descent : Z.
Variable piexif_load : list byte -> result exif_dict.
Variable decode : list byte -> result str.
Variable strptime : str -> result datetime.
Variable geolocator : option (Q * Q -> result (option raw_dict)).

Local Abbreviation image_label :=
  (image_label Px piexif_load decode strptime geolocator).
Local Abbreviation process_image :=
  (process_image Px resample gaussian_blur paste_px textlength ascent descent
                 piexif_load decode strptime geolocator).


(** X8.  A label has a non-empty date, the one [exif_date] extracted, and
    its city is either [None] or the non-empty city [exif_city] extracted:
    an empty city never enters a label. *)
Theorem image_label_components (img : Image Px) (d : str) (c : option str) :
  image_label img = Some (d, c) ->
  d <> [] /\ c <> Some []
  /\ exists exif,
       piexif_load (default [] (info_exif Px img)) = Ok exif
       /\ exif_date decode strptime exif = Some d
       /\ c = (if truthy (exif_city geolocator exif)
               then exif_city geolocator exif else None).
Proof.
  unfold image_label.
  destruct (piexif_load (default [] (info_exif Px img))) as [exif|] eqn:Hload;
    [|discriminate].
  simpl.
  destruct (exif_date decode strptime exif) as [[|x date]|] eqn:Hdate;
    try discriminate.
  destruct (exif_city geolocator exif) as [[|y city]|] eqn:Hcity; simpl;
    intros [= <- <-]; (split; [done|]); (split; [done|]);
    exists exif; rewrite ?Hdate, ?Hcity; auto.
Qed.


(** X10.  The original always spans the square in one direction: the paste
    offset is zero along the longer side of the source and half the
    difference of the sides, rounded down, along the other. *)
Theorem paste_box_touches_edges (img : Image Px) :
  let w := (size Px img).1 in
  let h := (size Px img).2 in
  paste_box Px img = (Z.max 0 (h - w) `div` 2, Z.max 0 (w - h) `div` 2)
  /\ ((paste_box Px img).1 = 0 \/ (paste_box Px img).2 = 0).
Proof.
  destruct img as [[w h] px info]. cbn -[Z.div Z.max].
  unfold paste_box, square_size. cbn -[Z.div Z.max].
  replace (Z.max w h - w) with (Z.max 0 (h - w)) by lia.
  replace (Z.max w h - h) with (Z.max 0 (w - h)) by lia.
  split; [reflexivity|].
  destruct (Z.le_ge_cases w h) as [Hle|Hge].
  - right. replace (Z.max 0 (w - h)) with 0 by lia. reflexivity.
  - left. replace (Z.max 0 (h - w)) with 0 by lia. reflexivity.
Qed.

End ProcessImageMore.

(** ** Properties of the batch driver *)

Lemma str_le_total : Total str_le.
Proof.
  intros s t. unfold str_le.
  destruct (trichotomyT lexico s t) as [[H|H]|H]; auto.
Qed.

Lemma str_le_trans : Transitive str_le.
Proof.
  intros s t u [->|Hst] [->|Htu]; unfold str_le; auto.
  right. exact (transitivity Hst Htu).
Qed.

Lemma str_le_antisym (s t : str) : str_le s t -> str_le t s -> s = t.
Proof.
  intros [->|Hst] [Heq|Hts]; auto.
  exfalso. exact (irreflexivity lexico s (transitivity Hst Hts)).
Qed.

Section BatchMore.

Variable Px : Type.
Variable resample : Z * Z -> Z * Z -> Px -> Px.
Variable gaussian_blur : Z -> Z * Z -> Px -> Px.
Variable paste_px : Z * Z -> Px -> Z * Z -> Px -> Z * Z -> Px.
Variable textlength : str -> Q.
Variable ascent descent : Z.
Variable piexif_load : list byte -> result exif_dict.
Variable decode : list byte -> result str.
Variable strptime : str -> result datetime.
Variable geolocator : option (Q * Q -> result (option raw_dict)).
Variable lower : str -> str.
Variable open_image : str -> result (Image Px).
Variable save_image : str -> output Px -> result unit.

Local Abbreviation process_image :=
  (process_image Px resample gaussian_blur paste_px textlength ascent descent
                 piexif_load decode strptime geolocator).
Local Abbreviation process_file :=
  (process_file Px resample gaussian_blur paste_px textlength ascent descent
                piexif_load decode strptime geolocator open_image save_image).
Local Abbreviation run_batch :=
  (run_batch Px resample gaussian_blur paste_px textlength ascent descent
             piexif_load decode strptime geolocator open_image save_image).
Local Abbreviation main :=
  (main Px resample gaussian_blur paste_px textlength ascent descent
        piexif_load decode strptime geolocator lower open_image save_image).

Lemma batch_files_sorted (listing : list str) :
  StronglySorted str_le (batch_files lower listing).
Proof.
  unfold batch_files.
  apply (@StronglySorted_merge_sort _ str_le _ str_le_trans str_le_total).
Qed.

Lemma batch_files_perm (listing : list str) :
  batch_files lower listing ≡ₚ
  filter (fun f => Is_true (is_jpg lower f)) listing.
Proof. unfold batch_files. apply merge_sort_Permutation. Qed.

Lemma batch_files_elem (listing : list str) (f : str) :
  f ∈ batch_files lower listing <-> f ∈ listing /\ is_jpg lower f = true.
Proof.
  rewrite batch_files_perm, list_elem_of_filter, Is_true_true. tauto.
Qed.

(** A file is processed without an exception exactly when it opens and the
    canvas made of it saves. *)
Lemma process_file_ok (f : str) (out : output Px) :
  process_file f = Ok out <->
  exists img,
    open_image f = Ok img
    /\ out = process_image img
    /\ save_image f (process_image img) = Ok ().
Proof.
  unfold process_file.
  destruct (open_image f) as [img|]; simpl.
  - destruct (save_image f (process_image img)) as [[]|] eqn:Hsave; simpl.
    + split.
      * intros [= <-]. exists img. auto.
      * intros (img' & [= <-] & -> & _). reflexivity.
    + split; [discriminate|].
      intros (img' & [= <-] & _ & Hsave'). congruence.
  - split; [discriminate|]. intros (img' & Himg & _). discriminate.
Qed.

Lemma process_file_unreadable (f : str) :
  open_image f = Raise -> process_file f = Raise.
Proof. intros Hf. unfold process_file. rewrite Hf. reflexivity. Qed.

(** The loop saves the files up to the first whose processing raises. *)
Lemma run_batch_split (files : list str) :
  (Forall (fun f => process_file f <> Raise) (map fst (run_batch files).1))
  /\ ((run_batch files).2 = true /\ map fst (run_batch files).1 = files
      \/ (run_batch files).2 = false
         /\ exists f rest,
              files = map fst (run_batch files).1 ++ f :: rest
              /\ process_file f = Raise).
Proof.
  induction files as [|f files [IHall IH]]; simpl.
  - split; [constructor|]. left. auto.
  - destruct (process_file f) as [out|] eqn:Hfile; simpl.
    + split; [constructor; [congruence|exact IHall]|].
      destruct IH as [[Hdone Hnames]|(Hstop & g & rest & Hfiles & Hg)].
      * left. split; [exact Hdone|]. f_equal. exact Hnames.
      * right. split; [exact Hstop|]. exists g, rest.
        split; [|exact Hg]. f_equal. exact Hfiles.
    + split; [constructor|]. right. split; [reflexivity|].
      exists f, files. auto.
Qed.

Lemma run_batch_prefix (files : list str) :
  map fst (run_batch files).1 `prefix_of` files.
Proof.
  destruct (run_batch_split files)
    as [_ [[_ Hnames]|(_ & f & rest & Hfiles & _)]].
  - rewrite Hnames. reflexivity.
  - rewrite Hfiles at 2. apply prefix_app_r. reflexivity.
Qed.

(** X11.  The files [main] saves are, in the order saved, an initial part of
    the sorted matching files: they are in ascending code-point order, every
    one of them is in the listing and ends in [.jpg] once lowered, and none
    is saved more often than it is listed. *)
Theorem main_saves_sorted_jpgs (listing : list str) :
  map fst (main listing).1 `prefix_of` batch_files lower listing
  /\ StronglySorted str_le (map fst (main listing).1)
  /\ Forall (fun f => f ∈ listing /\ lit ".jpg" `suffix_of` lower f)
            (map fst (main listing).1)
  /\ map fst (main listing).1 ⊆+ listing.
Proof.
  pose proof (run_batch_prefix (batch_files lower listing)) as Hpre.
  fold (main listing) in Hpre.
  split; [exact Hpre|].
  destruct Hpre as [rest Hrest].
  pose proof (batch_files_sorted listing) as Hsorted.
  split; [|split].
  - rewrite Hrest in Hsorted. apply StronglySorted_app_1_l in Hsorted.
    exact Hsorted.
  - apply Forall_forall. intros f Hf.
    assert (f ∈ batch_files lower listing) as Hin
      by (rewrite Hrest; apply elem_of_app; left; exact Hf).
    apply batch_files_elem in Hin as [Hin Hjpg].
    split; [exact Hin|].
    unfold is_jpg in Hjpg. apply bool_decide_eq_true in Hjpg. exact Hjpg.
  - transitivity (batch_files lower listing).
    + rewrite Hrest. apply submseteq_inserts_r. reflexivity.
    + rewrite batch_files_perm. apply sublist_submseteq, sublist_filter.
Qed.


(** X13.  A matching file that does not open ends the run: [main] does not
    run to its end, and every file it has saved sorts strictly before that
    file. *)
Theorem main_stops_at_unreadable (listing : list str) (f : str) :
  f ∈ listing -> is_jpg lower f = true -> open_image f = Raise ->
  (main listing).2 = false
  /\ Forall (fun g => lexico g f) (map fst (main listing).1).
Proof.
  intros Hin Hjpg Hopenf.
  pose proof (process_file_unreadable f Hopenf) as Hf.
  assert (f ∈ batch_files lower listing) as Hfile
    by (apply batch_files_elem; auto).
  pose proof (batch_files_sorted listing) as Hsorted.
  destruct (run_batch_split (batch_files lower listing))
    as [Hopen [[Hdone Hnames]|(Hstop & g & rest & Hfiles & Hg)]];
    fold (main listing) in *; rewrite Forall_forall in Hopen.
  - exfalso. rewrite <- Hnames in Hfile. exact (Hopen f Hfile Hf).
  - split; [exact Hstop|].
    apply Forall_forall. intros x Hx.
    assert (f ∈ g :: rest) as Hlater.
    { rewrite Hfiles in Hfile. apply elem_of_app in Hfile as [Hsaved|Hlater];
        [|exact Hlater].
      exfalso. exact (Hopen f Hsaved Hf). }
    rewrite Hfiles in Hsorted.
    destruct (StronglySorted_app_1_elem_of str_le _ _ x f Hsorted Hx Hlater)
      as [->|Hlt]; [|exact Hlt].
    exfalso. exact (Hopen f Hx Hf).
Qed.

Lemma run_batch_outputs (files : list str) :
  Forall (fun fo =>
            exists img,
              open_image fo.1 = Ok img
              /\ fo.2 = process_image img
              /\ size Px (canvas Px fo.2) = (OUTPUT_SIZE, OUTPUT_SIZE)
              /\ (length (drawn Px fo.2) <= 1)%nat
              /\ save_image fo.1 fo.2 = Ok ())
         (run_batch files).1.
Proof.
  induction files as [|f files IH]; simpl; [constructor|].
  destruct (process_file f) as [out|] eqn:Hfile; simpl; [|constructor].
  constructor; [|exact IH].
  apply process_file_ok in Hfile as (img & Himg & -> & Hsave).
  exists img. simpl. split; [exact Himg|]. split; [reflexivity|].
  rewrite (process_image_drawn Px resample gaussian_blur paste_px textlength
             ascent descent piexif_load decode strptime geolocator img)
    in Hsave |- *.
  simpl. split; [reflexivity|]. split; [|exact Hsave].
  destruct (image_label _ _ _ _ _ _); simpl; lia.
Qed.

(** X14.  Whatever [main] saves under a name is what [process_image] makes
    of the image opened under that name, and its save did not raise: a
    canvas of [OUTPUT_SIZE] by [OUTPUT_SIZE] with at most one text drawn on
    it. *)
Theorem main_outputs (listing : list str) :
  Forall (fun fo =>
            exists img,
              open_image fo.1 = Ok img
              /\ fo.2 = process_image img
              /\ size Px (canvas Px fo.2) = (OUTPUT_SIZE, OUTPUT_SIZE)
              /\ (length (drawn Px fo.2) <= 1)%nat
              /\ save_image fo.1 fo.2 = Ok ())
         (main listing).1
  /\ (length (main listing).1 <= length listing)%nat.
Proof.
  split; [apply run_batch_outputs|].
  rewrite <- (length_map fst).
  pose proof (run_batch_prefix (batch_files lower listing)) as Hpre.
  fold (main listing) in Hpre. apply prefix_length in Hpre.
  pose proof (batch_files_perm listing) as Hperm.
  apply Permutation_length in Hperm.
  pose proof (length_filter (fun f => Is_true (is_jpg lower f)) listing).
  lia.
Qed.

End BatchMore.

(** ** The further theorems at the sample collaborators *)

Lemma clamp_city_trims_only_if_needed_witness :
  fits mono_textlength 300 (base_label (lit "3 jan") (lit "Amsterdam")) = false
  /\ (clamp_city mono_textlength (lit "3 jan") (lit "Amsterdam") 300
      = lit "3 jan"
      \/ exists k,
           (1 <= k < length (lit "Amsterdam"))%nat
           /\ clamp_city mono_textlength (lit "3 jan") (lit "Amsterdam") 300
              = candidate (lit "3 jan") (take k (lit "Amsterdam"))
           /\ fits mono_textlength 300
                (clamp_city mono_textlength (lit "3 jan") (lit "Amsterdam")
                   300) = true).
Proof.
  assert (fits mono_textlength 300
            (base_label (lit "3 jan") (lit "Amsterdam")) = false) as Hbase
    by (vm_compute; reflexivity).
  split; [exact Hbase|].
  exact (proj2 (clamp_city_trims_only_if_needed mono_textlength
                  (lit "3 jan") (lit "Amsterdam") 300) Hbase).
Defined.

Lemma clamp_city_date_only_iff_witness :
  clamp_city mono_textlength (lit "3 jan") (lit "Ede") 100 = lit "3 jan".
Proof.
  apply (clamp_city_date_only_iff mono_textlength (lit "3 jan") (lit "Ede") 100).
  split; [vm_compute; reflexivity|].
  repeat constructor.
Defined.

Lemma dms_to_deg_raises_witness :
  dms_to_deg
    (ETuple [ETuple [EInt 52; EInt 1]; ETuple [EInt 22; EInt 0];
             ETuple [EInt 264; EInt 10]]) (EBytes [x4e]) = Raise
  /\ dms_to_deg (ETuple [ETuple [EInt 52; EInt 1]]) (EBytes [x4e]) = Raise.
Proof.
  destruct (dms_to_deg_raises (EBytes [x4e])) as (Hzero & Hshort & _).
  split.
  - apply Hzero. right. left. reflexivity.
  - apply Hshort. simpl. lia.
Defined.

Lemma dms_to_deg_sign_witness :
  exists v : Q,
    dms_to_deg
      (ETuple [ETuple [EInt 33; EInt 1]; ETuple [EInt 51; EInt 1];
               ETuple [EInt 54; EInt 1]]) (EBytes [x53]) = Ok v
    /\ (v <= 0)%Q.
Proof.
  exact (dms_to_deg_sign 33 1 51 1 54 1 (EBytes [x53])
           ltac:(lia) ltac:(lia) ltac:(lia) ltac:(lia) ltac:(lia) ltac:(lia)).
Defined.

Lemma exif_city_lookup_needs_coordinates_witness :
  exif_city_lookups (Some sample_reverse) sample_exif =
    [(113127840 # 2160000, 10561320 # 2160000)%Q]
  /\ exif_city_lookups None sample_exif = [].
Proof.
  destruct (exif_city_lookup_needs_coordinates (Some sample_reverse)
              sample_exif) as (_ & Hasks & _ & _).
  split.
  - apply (Hasks sample_reverse sample_gps
             (ETuple [ETuple [EInt 52; EInt 1]; ETuple [EInt 22; EInt 1];
                      ETuple [EInt 264; EInt 10]])
             (EBytes [x4e])
             (ETuple [ETuple [EInt 4; EInt 1]; ETuple [EInt 53; EInt 1];
                      ETuple [EInt 222; EInt 10]])
             (EBytes [x45])); vm_compute; reflexivity.
  - exact (proj1 (proj2 (proj2 (exif_city_lookup_needs_coordinates None
                                  sample_exif))) eq_refl).
Defined.

Lemma exif_date_shape_witness :
  (5 <= length (lit "3 jan") <= 6)%nat.
Proof.
  apply (exif_date_shape decode_ascii strptime_padded strptime_padded_range
           sample_exif (lit "3 jan")).
  vm_compute. reflexivity.
Defined.

Lemma image_label_components_witness :
  lit "3 jan" <> [] /\ Some (lit "Amsterdam") <> Some [].
Proof.
  destruct (image_label_components Z sample_load decode_ascii strptime_padded
              (Some sample_reverse) (grey_image 4000 3000 (Some [x01]))
              (lit "3 jan") (Some (lit "Amsterdam")))
    as (Hd & Hc & _).
  - vm_compute. reflexivity.
  - split; [exact Hd|exact Hc].
Defined.



Lemma main_stops_at_unreadable_witness :
  (sample_main (lit "broken.jpg" :: sample_listing)).2 = false
  /\ Forall (fun g => lexico g (lit "broken.jpg"))
            (map fst (sample_main (lit "broken.jpg" :: sample_listing)).1).
Proof.
  apply (main_stops_at_unreadable Z (fun _ _ p => p) (fun _ _ p => p)
           (fun _ p _ _ _ => p) mono_textlength 67 17 sample_load decode_ascii
           strptime_padded (Some sample_reverse) ascii_lower sample_open
           sample_save (lit "broken.jpg" :: sample_listing)
           (lit "broken.jpg")).
  - apply elem_of_cons. left. reflexivity.
  - vm_compute. reflexivity.
  - vm_compute. reflexivity.
Defined.
